(** * gobgp: the REST gateway of [api/rest.go] and the routing core it fronts

    The development has two parts.

    - [Api] is a shallow embedding of [api/rest.go]: the request and response
      types, [NewRestRequest], the [Neighbor] handler, [NotFoundHandler] and
      the router that [Serve] builds.  Go's effects (allocation of channels,
      channel communication, writes to the [http.ResponseWriter], panics) are
      threaded through a small state-and-outcome monad [Go].
    - [Decision], [Rib] and [Fsm] model the decision process, the RIB engine and
      the peer session state machine.  Their code is not part of the sources at
      hand, so those definitions follow the design document. *)

From Stdlib Require Import Ascii.
From stdpp Require Import gmap strings.

Open Scope string_scope.
Open Scope list_scope.
Open Scope Z_scope.

Module Api.

(** ** Constants of [api/rest.go] *)

(** [const ( _ = iota; REQ_NEIGHBOR; ... )]: the blank identifier takes 0. *)
Definition REQ_NEIGHBOR : Z := 1.
Definition REQ_NEIGHBORS : Z := 2.
Definition REQ_ADJ_RIB_IN : Z := 3.
Definition REQ_ADJ_RIB_OUT : Z := 4.
Definition REQ_ADJ_RIB_LOCAL : Z := 5.
Definition REQ_ADJ_RIB_LOCAL_BEST : Z := 6.

Definition REQ_KINDS : list Z :=
  [REQ_NEIGHBOR; REQ_NEIGHBORS; REQ_ADJ_RIB_IN; REQ_ADJ_RIB_OUT;
   REQ_ADJ_RIB_LOCAL; REQ_ADJ_RIB_LOCAL_BEST].

Definition BASE_VERSION : string := "/v1".
Definition NEIGHBOR : string := "/bgp/neighbor".
Definition PARAM_REMOTE_PEER_ADDR : string := "remotePeerAddr".

Definition REST_PORT : Z := 8080.

Definition JSON_FORMATTED : Z := 1.
Definition JSON_UN_FORMATTED : Z := 2.

(** The [net/http] status codes that occur, and their texts. *)
Definition StatusOK : Z := 200.
Definition StatusNotFound : Z := 404.
Definition StatusInternalServerError : Z := 500.

Definition StatusText (code : Z) : string :=
  if code =? 200 then "OK"
  else if code =? 404 then "Not Found"
  else if code =? 500 then "Internal Server Error"
  else "".

(** ** Data *)

(** Go's [error]: [nil], or a value known by the text [Error()] returns. *)
Definition error : Type := option string.

(** A channel is known by its identity; the world records the ones made. *)
Definition chan : Type := nat.

(** [RequestType] is an [int]; the field [Err] is [ReqErr] here, to keep it
    apart from the method [Err()] of a response. *)
Record RestRequest : Type := mkRestRequest {
  RequestType : Z;
  RemoteAddr : string;
  ResponseCh : chan;
  ReqErr : error
}.

Record RestResponseDefault : Type := mkRestResponseDefault {
  ResponseErr : error
}.

(** [RemoteAs] and [NeighborState] are [uint32], [UpdateCount] is an [int];
    the embedded struct is the field [NbDefault]. *)
Record RestResponseNeighbor : Type := mkRestResponseNeighbor {
  NbDefault : RestResponseDefault;
  NbRemoteAddr : string;
  RemoteAs : Z;
  NeighborState : Z;
  UpdateCount : Z
}.

Record RestResponseRib : Type := mkRestResponseRib {
  RibDefault : RestResponseDefault;
  RibRemoteAddr : string;
  RibRemoteAs : Z;
  RibInfo : list string
}.

(** [type RestResponse interface { Err() error }].  The method is declared on
    [*RestResponseDefault]; the two other structs embed that struct, so within
    the package the interface is inhabited by pointers to the three of them.
    The nil interface value, nil pointers and implementations from other
    packages are left out. *)
Inductive RestResponse : Type :=
| PtrDefault (r : RestResponseDefault)
| PtrNeighbor (r : RestResponseNeighbor)
| PtrRib (r : RestResponseRib).

Definition Err (r : RestResponse) : error :=
  match r with
  | PtrDefault d => ResponseErr d
  | PtrNeighbor n => ResponseErr (NbDefault n)
  | PtrRib b => ResponseErr (RibDefault b)
  end.

Record RestServer : Type := mkRestServer {
  port : Z;
  bgpServerCh : chan
}.

Definition NewRestServer (p : Z) (ch : chan) : RestServer :=
  {| port := p; bgpServerCh := ch |}.

(** ** Effects *)

(** What a handler does, in the order it does it. *)
Inductive Event : Type :=
| EvDebug (msg : string)
| EvLogError (msg : string)
| EvHttpError (msg : string) (code : Z)
| EvWrite (payload : string)
| EvMake (c : chan)
| EvSend (c : chan) (req : RestRequest)
| EvRecv (c : chan) (r : RestResponse).

(** The state a handler runs in: the package variable [JsonFormat], the
    channels made so far with their capacities, what the coordinator has put
    on response channels, and the trace of events. *)
Record World : Type := mkWorld {
  JsonFormat : Z;
  chans : gmap nat nat;
  mail : gmap nat RestResponse;
  trace : list Event
}.

Definition log_event (e : Event) (w : World) : World :=
  {| JsonFormat := JsonFormat w; chans := chans w; mail := mail w;
     trace := trace w ++ [e] |}.

(** A call returns, panics, or stays blocked on a channel. *)
Inductive Outcome (A : Type) : Type :=
| Done (a : A)
| Panicked (msg : string)
| Blocked (c : chan).
Arguments Done {A} a.
Arguments Panicked {A} msg.
Arguments Blocked {A} c.

Definition Go (A : Type) : Type := World -> Outcome A * World.

#[global] Instance Go_ret : MRet Go := fun A a w => (Done a, w).

#[global] Instance Go_bind : MBind Go := fun A B k m w =>
  match m w with
  | (Done a, w') => k a w'
  | (Panicked msg, w') => (Panicked msg, w')
  | (Blocked c, w') => (Blocked c, w')
  end.

Definition emit (e : Event) : Go unit := fun w => (Done tt, log_event e w).

Definition panic {A : Type} (msg : string) : Go A := fun w => (Panicked msg, w).

Definition logger_Debug (msg : string) : Go unit := emit (EvDebug msg).
Definition logger_Error (msg : string) : Go unit := emit (EvLogError msg).
Definition http_Error (msg : string) (code : Z) : Go unit := emit (EvHttpError msg code).
Definition w_Write (payload : string) : Go unit := emit (EvWrite payload).

Definition get_JsonFormat : Go Z := fun w => (Done (JsonFormat w), w).

(** [make(chan RestResponse)]: a channel nobody holds yet, unbuffered, empty. *)
Definition make_chan (capacity : nat) : Go chan := fun w =>
  let c := fresh (dom (chans w)) in
  (Done c,
   {| JsonFormat := JsonFormat w;
      chans := <[c := capacity]> (chans w);
      mail := delete c (mail w);
      trace := trace w ++ [EvMake c] |}).

Definition NewRestRequest (reqType : Z) (remoteAddr : string) : Go RestRequest :=
  c ← make_chan 0;
  mret {| RequestType := reqType; RemoteAddr := remoteAddr;
          ResponseCh := c; ReqErr := None |}.

(** Requests built one after the other. *)
Fixpoint NewRestRequests (args : list (Z * string)) : Go (list RestRequest) :=
  match args with
  | [] => mret []
  | (t, a) :: rest =>
      r ← NewRestRequest t a;
      rs ← NewRestRequests rest;
      mret (r :: rs)
  end.

(** ** HTTP requests and the reply a handler leaves behind *)

(** [*http.Request], as far as the handlers read it; [Vars] is what
    [mux.Vars(r)] returns. *)
Record Request : Type := mkRequest {
  Method : string;
  Path : string;
  Vars : gmap string string
}.

Definition LF : string := String "010"%char EmptyString.

(** [net/http]'s response writer: the first status written stands, a body
    written with no status yet goes out under 200, and [http.Error] writes the
    status and then the message followed by a newline. *)
Record Reply : Type := mkReply {
  status : option Z;
  body : string
}.

Definition apply_event (r : Reply) (e : Event) : Reply :=
  match e with
  | EvHttpError msg code =>
      {| status := Some (default code (status r)); body := body r +:+ msg +:+ LF |}
  | EvWrite payload =>
      {| status := Some (default StatusOK (status r)); body := body r +:+ payload |}
  | _ => r
  end.

Definition http_reply (t : list Event) : Reply :=
  foldl apply_event {| status := None; body := "" |} t.

Definition is_reply (e : Event) : bool :=
  match e with EvHttpError _ _ | EvWrite _ => true | _ => false end.

Definition is_payload (e : Event) : bool :=
  match e with EvWrite _ => true | _ => false end.

Definition sent (t : list Event) : list (chan * RestRequest) :=
  omap (λ e, match e with EvSend c req => Some (c, req) | _ => None end) t.

Definition received (t : list Event) : list (chan * RestResponse) :=
  omap (λ e, match e with EvRecv c r => Some (c, r) | _ => None end) t.

Definition replies (t : list Event) : list Event := List.filter is_reply t.

Definition payloads (t : list Event) : list Event := List.filter is_payload t.

(** The events that follow the first receive. *)
Fixpoint after_recv (t : list Event) : list Event :=
  match t with
  | [] => []
  | EvRecv _ _ :: rest => rest
  | _ :: rest => after_recv rest
  end.

(** [fmt.Sprintf(format, arg)] for a format with no verb: the argument is
    appended as an EXTRA note. *)
Definition Sprintf_no_verb (format arg : string) : string :=
  format +:+ "%!(EXTRA string=" +:+ arg +:+ ")".

Definition log_events (evs : list Event) (w : World) : World :=
  {| JsonFormat := JsonFormat w; chans := chans w; mail := mail w;
     trace := trace w ++ evs |}.

(** The events a run added to the trace it started from. *)
Definition new_events (w w' : World) : list Event :=
  drop (length (trace w)) (trace w').

(** The request [Neighbor] builds for an HTTP request met in world [w]. *)
Definition neighbor_request (r : Request) (w : World) : RestRequest :=
  {| RequestType := REQ_NEIGHBOR;
     RemoteAddr := default "" (Vars r !! PARAM_REMOTE_PEER_ADDR);
     ResponseCh := fresh (dom (chans w));
     ReqErr := None |}.

(** What [Neighbor] logs and writes before it builds its request. *)
Definition opening (r : Request) : list Event :=
  match Vars r !! PARAM_REMOTE_PEER_ADDR with
  | None =>
      [EvDebug "neighbor address is not specified";
       EvHttpError "neighbor address is not specified" StatusInternalServerError]
  | Some _ => []
  end ++
  [EvDebug ("Look up neighbor with the remote address : "
            +:+ default "" (Vars r !! PARAM_REMOTE_PEER_ADDR))].


(** ** The gateway *)

(** What the far end of [bgpServerCh] does with a request. *)
Inductive Service : Type :=
| NotReceiving
| Silent
| Answers (r : RestResponse).

Section Gateway.

(** The Server Coordinator, which reads [bgpServerCh]. *)
Variable coordinator : RestRequest -> Service.

(** [json.MarshalIndent] with an empty prefix and a two-space indent, and
    [json.Marshal]: each returns the encoding and an error. *)
Variable json_MarshalIndent : RestResponseNeighbor -> string * error.
Variable json_Marshal : RestResponseNeighbor -> string * error.

(** [ch <- req] on the unbuffered request channel: it returns once the
    coordinator has taken the request, and the coordinator's answer, if any,
    is then on its way on [req.ResponseCh]. *)
Definition chan_send (c : chan) (req : RestRequest) : Go unit := fun w =>
  match coordinator req with
  | NotReceiving => (Blocked c, w)
  | Silent => (Done tt, log_event (EvSend c req) w)
  | Answers r =>
      (Done tt,
       {| JsonFormat := JsonFormat w; chans := chans w;
          mail := <[ResponseCh req := r]> (mail w);
          trace := trace w ++ [EvSend c req] |})
  end.

(** [<-ch] on a response channel. *)
Definition chan_recv (c : chan) : Go RestResponse := fun w =>
  match mail w !! c with
  | Some r =>
      (Done r,
       {| JsonFormat := JsonFormat w; chans := chans w;
          mail := delete c (mail w);
          trace := trace w ++ [EvRecv c r] |})
  | None => (Blocked c, w)
  end.

Definition marshal (format : Z) (res : RestResponseNeighbor) : string * error :=
  if format =? JSON_FORMATTED then json_MarshalIndent res
  else if format =? JSON_UN_FORMATTED then json_Marshal res
  else ("", None).

(** [Neighbor] from the test of [resInf.Err()] to its end: what the handler
    does with the response it received. *)
Definition Neighbor_reply (remoteAddr : string) (resInf : RestResponse) : Go unit :=
  match Err resInf with
  | Some e =>
      logger_Debug e;;
      http_Error e StatusInternalServerError
  | None =>
      match resInf with
      | PtrNeighbor res =>
          format ← get_JsonFormat;
          let '(jns, err) := marshal format res in
          match err with
          | Some _ =>
              let errStr :=
                Sprintf_no_verb "Failed to perth json of neighbor state" remoteAddr in
              logger_Error errStr;;
              http_Error errStr StatusInternalServerError
          | None => w_Write jns
          end
      | _ => panic "interface conversion: RestResponse is not *RestResponseNeighbor"
      end
  end.

Definition Neighbor (rs : RestServer) (r : Request) : Go unit :=
  let params := Vars r in
  let found := params !! PARAM_REMOTE_PEER_ADDR in
  let remoteAddr := default "" found in
  (match found with
   | None =>
       let errStr := "neighbor address is not specified" in
       logger_Debug errStr;;
       http_Error errStr StatusInternalServerError
   | Some _ => mret tt
   end);;
  logger_Debug ("Look up neighbor with the remote address : " +:+ remoteAddr);;
  req ← NewRestRequest REQ_NEIGHBOR remoteAddr;
  chan_send (bgpServerCh rs) req;;
  resInf ← chan_recv (ResponseCh req);
  Neighbor_reply remoteAddr resInf.

Definition NotFoundHandler (r : Request) : Go unit :=
  http_Error (StatusText StatusNotFound) StatusNotFound.

(** ** The router of [Serve] *)

Definition Handler : Type := Request -> Go unit.

(** A route of [gorilla/mux] as [Serve] registers it: a path template and the
    methods it answers. *)
Record Route : Type := mkRoute {
  template : string;
  methods : list string;
  handler : Handler
}.

Record Router : Type := mkRouter {
  routes : list Route;
  RouterNotFoundHandler : option Handler
}.

(** [strip_prefix p s] is what follows [p] in [s]. *)
Fixpoint strip_prefix (p s : string) : option string :=
  match p with
  | EmptyString => Some s
  | String a p' =>
      match s with
      | String b s' => if Ascii.eqb a b then strip_prefix p' s' else None
      | EmptyString => None
      end
  end.

Fixpoint has_char (a : ascii) (s : string) : bool :=
  match s with
  | EmptyString => false
  | String b s' => Ascii.eqb a b || has_char a s'
  end.

(** The text before the first [a], and the text after it. *)
Fixpoint cut_at (a : ascii) (s : string) : string * option string :=
  match s with
  | EmptyString => (EmptyString, None)
  | String b s' =>
      if Ascii.eqb a b then (EmptyString, Some s')
      else let '(l, r) := cut_at a s' in (String b l, r)
  end.

(** A template [prefix{name}] splits into its literal prefix and its variable;
    a template with no brace is all literal. *)
Definition parse_template (t : string) : string * option string :=
  match cut_at "{"%char t with
  | (lit, Some rest) => (lit, Some (fst (cut_at "}"%char rest)))
  | (lit, None) => (lit, None)
  end.

(** The variables a path binds under a template: a variable stands for one
    non-empty path segment. *)
Definition match_path (t path : string) : option (gmap string string) :=
  match parse_template t with
  | (lit, None) => if String.eqb lit path then Some ∅ else None
  | (lit, Some name) =>
      match strip_prefix lit path with
      | Some seg =>
          if String.eqb seg "" || has_char "/"%char seg then None
          else Some {[ name := seg ]}
      | None => None
      end
  end.

Definition match_route (rt : Route) (req : Request) : option (gmap string string) :=
  if existsb (String.eqb (Method req)) (methods rt)
  then match_path (template rt) (Path req)
  else None.

Fixpoint dispatch (rts : list Route) (req : Request) : option (Handler * Request) :=
  match rts with
  | [] => None
  | rt :: rest =>
      match match_route rt req with
      | Some vars =>
          Some (handler rt, {| Method := Method req; Path := Path req; Vars := vars |})
      | None => dispatch rest req
      end
  end.


(** The router [Serve] hands to [http.Handle] before it starts listening. *)
Definition Serve_router (rs : RestServer) : Router :=
  let neighbor := BASE_VERSION +:+ NEIGHBOR in
  {| routes :=
       [ {| template := neighbor +:+ "/{" +:+ PARAM_REMOTE_PEER_ADDR +:+ "}";
            methods := ["GET"];
            handler := Neighbor rs |} ];
     RouterNotFoundHandler := Some NotFoundHandler |}.

End Gateway.

(** ** Sample inputs *)

(** The world at start-up: [JsonFormat] holds its initial value and the only
    channel is the one [main] made for the coordinator. *)
Definition initial_world : World :=
  {| JsonFormat := JSON_FORMATTED; chans := {[ 0%nat := 0%nat ]}; mail := ∅; trace := [] |}.

Definition sample_server : RestServer := NewRestServer REST_PORT 0%nat.

Definition sample_neighbor : RestResponseNeighbor :=
  {| NbDefault := {| ResponseErr := None |}; NbRemoteAddr := "10.0.0.1";
     RemoteAs := 65001; NeighborState := 6; UpdateCount := 3 |}.


(** A coordinator that knows one peer and reports any other as not found. *)
Definition sample_coordinator (req : RestRequest) : Service :=
  if String.eqb (RemoteAddr req) "10.0.0.1"
  then Answers (PtrNeighbor sample_neighbor)
  else Answers (PtrDefault {| ResponseErr := Some "neighbor not found" |}).


Definition sample_marshal (res : RestResponseNeighbor) : string * error :=
  ("{RemoteAddr: " +:+ NbRemoteAddr res +:+ "}", None).

Definition routed (addr : string) : Request :=
  {| Method := "GET"; Path := "/v1/bgp/neighbor/" +:+ addr;
     Vars := {[ PARAM_REMOTE_PEER_ADDR := addr ]} |}.

Definition unrouted (path : string) : Request :=
  {| Method := "GET"; Path := path; Vars := ∅ |}.

(** A coordinator that takes every request and never answers. *)
Definition silent_coordinator (req : RestRequest) : Service := Silent.

(** A coordinator that answers every request with the state of one peer. *)
Definition neighbor_coordinator (req : RestRequest) : Service :=
  Answers (PtrNeighbor sample_neighbor).

(** A marshaller that fails. *)
Definition failing_marshal (res : RestResponseNeighbor) : string * error :=
  ("", Some "json: unsupported value").

(** The start-up world after some other package has set [JsonFormat] to a
    value that is neither of the two constants. *)
Definition unset_format_world : World :=
  {| JsonFormat := 0; chans := {[ 0%nat := 0%nat ]}; mail := ∅; trace := [] |}.

End Api.

(** ** The decision process *)

Module Decision.

Inductive Origin : Type := IGP | EGP | Incomplete.

(** The fixed total order on origin codes: IGP < EGP < Incomplete. *)
Definition origin_code (o : Origin) : Z :=
  match o with IGP => 0 | EGP => 1 | Incomplete => 2 end.

(** A route as the decision process sees it: the prefix, the path attributes,
    and what the engine knows of the peer the route was learned from. *)
Record Route : Type := mkRoute {
  prefix : Z * Z;
  origin : Origin;
  as_path : list Z;
  next_hop : Z;
  local_pref : Z;
  med : Z;
  external : bool;
  igp_cost : Z;
  router_id : Z
}.

Definition as_path_length (r : Route) : Z := Z.of_nat (length (as_path r)).

(** The neighbouring AS a route came through: the first AS of its path. *)
Definition neighbor_as (r : Route) : option Z := head (as_path r).

Definition same_neighbor_as (a b : Route) : bool :=
  bool_decide (neighbor_as a = neighbor_as b).

(** Externally learned routes go first. *)
Definition internal_rank (r : Route) : Z := if external r then 0 else 1.

(** A criterion compares two routes: [Lt] prefers the first, [Gt] the second,
    [Eq] leaves the choice to the next criterion. *)
Definition Criterion : Type := Route -> Route -> comparison.

Definition by_lowest (f : Route -> Z) : Criterion := fun a b => f a ?= f b.
Definition by_highest (f : Route -> Z) : Criterion := fun a b => f b ?= f a.

(** Modelled from the spec: criterion 4 of section 4.2 (lowest MED, compared
    only between routes of the same neighbouring AS unless the engine is
    configured to always compare); the engine's code is not among the sources. *)
Definition by_med (always_compare : bool) : Criterion := fun a b =>
  if always_compare || same_neighbor_as a b then med a ?= med b else Eq.

(** Modelled from the spec: the seven criteria of section 4.2 in their strict
    priority order; the engine's code is not among the sources. *)
Definition criteria (always_compare : bool) : list Criterion :=
  [ by_highest local_pref;
    by_lowest as_path_length;
    by_lowest (fun r => origin_code (origin r));
    by_med always_compare;
    by_lowest internal_rank;
    by_lowest igp_cost;
    by_lowest router_id ].

(** The first criterion that discriminates decides. *)
Fixpoint rank (cs : list Criterion) (a b : Route) : comparison :=
  match cs with
  | [] => Eq
  | c :: cs' =>
      match c a b with
      | Eq => rank cs' a b
      | o => o
      end
  end.

Definition compare_routes (always_compare : bool) : Route -> Route -> comparison :=
  rank (criteria always_compare).

Section Select.

(** Candidates carry a route; the Loc-RIB keeps the winning peer beside it. *)
Context {A : Type} (route_of : A -> Route).
Variable always_compare : bool.

(** A newly applied contribution replaces the best so far when it ranks
    strictly higher. *)
Definition challenge (best c : A) : A :=
  match compare_routes always_compare (route_of c) (route_of best) with
  | Lt => c
  | _ => best
  end.

(** Modelled from the spec: the decision process of section 4.2 over the
    contributions to one prefix, applied in the order given; the engine's code
    is not among the sources. *)
Definition select (cs : list A) : option A :=
  match cs with
  | [] => None
  | c :: rest => Some (foldl challenge c rest)
  end.

End Select.



(** ** Sample routes *)

Definition sample_prefix : Z * Z := (167772160, 24).

Definition sample_route (pref : Z) (path : list Z) (m : Z) (hop id : Z) : Route :=
  {| prefix := sample_prefix; origin := IGP; as_path := path; next_hop := hop;
     local_pref := pref; med := m; external := true; igp_cost := 0; router_id := id |}.



(** The scenario of two contributors: peer A with local preference 100 and a
    path of two, peer B with local preference 200 and a path of one. *)
Definition route_a : Route := sample_route 100 [1; 9] 0 1 1.
Definition route_b : Route := sample_route 200 [2] 0 2 2.

End Decision.

(** ** The RIB engine *)

Module Rib.

Import Decision.

Definition Peer : Type := string.
Definition Prefix : Type := (Z * Z)%type.

(** Modelled from the spec: the Adj-RIB-In of every peer and the Loc-RIB of
    section 3, the latter with the identity of the winning peer; the engine's
    code is not among the sources. *)
Record State : Type := mkState {
  always_compare_med : bool;
  adj_rib_in : gmap string (gmap (Z * Z) Route);
  loc_rib : gmap (Z * Z) (string * Route)
}.


(** The Adj-RIB-In entries for a prefix, by the peer they belong to. *)
Definition contributions (adj : gmap string (gmap (Z * Z) Route)) (p : Z * Z)
  : gmap string Route :=
  omap (fun table : gmap (Z * Z) Route => table !! p) adj.

Definition contributors (adj : gmap string (gmap (Z * Z) Route)) (p : Z * Z)
  : list (string * Route) :=
  map_to_list (contributions adj p).

Definition best (always_compare : bool) (adj : gmap string (gmap (Z * Z) Route))
  (p : Z * Z) : option (string * Route) :=
  select snd always_compare (contributors adj p).

(** Recompute the Loc-RIB entry of one prefix from the current Adj-RIB-In. *)
Definition recompute (always_compare : bool) (adj : gmap string (gmap (Z * Z) Route))
  (p : Z * Z) (loc : gmap (Z * Z) (string * Route)) : gmap (Z * Z) (string * Route) :=
  match best always_compare adj p with
  | Some w => <[p := w]> loc
  | None => delete p loc
  end.

Inductive Event : Type :=
| Announce (peer : string) (r : Route)
| Withdraw (peer : string) (p : Z * Z)
| Teardown (peer : string).

Definition table_of (adj : gmap string (gmap (Z * Z) Route)) (peer : string)
  : gmap (Z * Z) Route :=
  default ∅ (adj !! peer).

(** The Adj-RIB-In after an event. *)
Definition apply_adj (e : Event) (adj : gmap string (gmap (Z * Z) Route))
  : gmap string (gmap (Z * Z) Route) :=
  match e with
  | Announce peer r => <[peer := <[prefix r := r]> (table_of adj peer)]> adj
  | Withdraw peer p => <[peer := delete p (table_of adj peer)]> adj
  | Teardown peer => delete peer adj
  end.

(** The prefixes an event affects. *)
Definition affected (e : Event) (adj : gmap string (gmap (Z * Z) Route)) : list (Z * Z) :=
  match e with
  | Announce _ r => [prefix r]
  | Withdraw _ p => [p]
  | Teardown peer => (map_to_list (table_of adj peer)).*1
  end.

(** Modelled from the spec: a RIB-affecting event of section 4.2 updates the
    Adj-RIB-In and recomputes the best route of every affected prefix; the
    engine's code is not among the sources. *)
Definition step (s : State) (e : Event) : State :=
  let adj' := apply_adj e (adj_rib_in s) in
  {| always_compare_med := always_compare_med s;
     adj_rib_in := adj';
     loc_rib := foldr (recompute (always_compare_med s) adj') (loc_rib s)
                      (affected e (adj_rib_in s)) |}.

Definition run (s : State) (es : list Event) : State := foldl step s es.


End Rib.

(** ** The peer session state machine *)

Module Fsm.

Inductive State : Type := Idle | Connect | Active | OpenSent | OpenConfirm | Established.

(** A received message, as far as the state machine looks at it: an Open is
    acceptable or not and proposes a hold time, an Update is well formed or
    not. *)
Inductive Message : Type :=
| Open (acceptable : bool) (hold_time : nat)
| Update (well_formed : bool)
| Keepalive
| Notification
| RouteRefresh.

(** Timer expiries are events of the machine's own stream, like the rest. *)
Inductive Event : Type :=
| AdminStart
| AdminStop
| TransportEstablished
| TransportError
| Received (m : Message)
| ConnectRetryExpired
| HoldTimerExpired
| KeepaliveTimerExpired.

Inductive Output : Type :=
| StartConnect
| SendOpen
| SendKeepalive
| SendNotification
| CloseTransport
| RouteUpdate
| ImplicitWithdrawal.

Record Config : Type := mkConfig {
  hold_time : nat;
  provisional_hold : nat;
  keepalive_floor : nat;
  connect_retry : nat
}.

(** A timer is stopped, or has some units of time left to run. *)
Record Session : Type := mkSession {
  state : State;
  hold : nat;
  hold_timer : option nat;
  keepalive_timer : option nat;
  retry_timer : option nat
}.

Definition initial : Session :=
  {| state := Idle; hold := 0; hold_timer := None;
     keepalive_timer := None; retry_timer := None |}.

(** The keepalive interval: a third of the hold interval, at least the floor. *)
Definition keepalive_interval (cfg : Config) (h : nat) : nat :=
  Nat.max (keepalive_floor cfg) (h / 3).

(** The session ends: every timer is stopped and the peer is back in Idle. *)
Definition to_idle (s : Session) : Session :=
  {| state := Idle; hold := hold s; hold_timer := None;
     keepalive_timer := None; retry_timer := None |}.

Definition teardown (s : Session) (notify : bool) : Session * list Output :=
  (to_idle s,
   (if notify then [SendNotification] else []) ++ [CloseTransport; ImplicitWithdrawal]).

Definition rearm_hold (s : Session) : Session :=
  {| state := state s; hold := hold s; hold_timer := Some (hold s);
     keepalive_timer := keepalive_timer s; retry_timer := retry_timer s |}.

(** Modelled from the spec: the transitions of section 4.1; the state
    machine's code is not among the sources. *)
Definition handle (cfg : Config) (s : Session) (e : Event) : Session * list Output :=
  match state s, e with
  | Idle, AdminStart =>
      ({| state := Connect; hold := hold s; hold_timer := None;
          keepalive_timer := None; retry_timer := Some (connect_retry cfg) |},
       [StartConnect])
  | Idle, _ => (s, [])
  | _, AdminStop => teardown s false
  | (Connect | Active), TransportEstablished =>
      ({| state := OpenSent; hold := provisional_hold cfg;
          hold_timer := Some (provisional_hold cfg);
          keepalive_timer := None; retry_timer := None |},
       [SendOpen])
  | Connect, TransportError =>
      ({| state := Active; hold := hold s; hold_timer := None;
          keepalive_timer := None; retry_timer := retry_timer s |}, [])
  | (Connect | Active), ConnectRetryExpired =>
      ({| state := Connect; hold := hold s; hold_timer := None;
          keepalive_timer := None; retry_timer := Some (connect_retry cfg) |},
       [StartConnect])
  | (Connect | Active), _ => (s, [])
  | OpenSent, Received (Open true proposed) =>
      let h := Nat.min (hold_time cfg) proposed in
      ({| state := OpenConfirm; hold := h; hold_timer := Some h;
          keepalive_timer := None; retry_timer := None |},
       [SendKeepalive])
  | OpenSent, Received _ => teardown s true
  | OpenConfirm, Received Keepalive =>
      ({| state := Established; hold := hold s; hold_timer := Some (hold s);
          keepalive_timer := Some (keepalive_interval cfg (hold s));
          retry_timer := None |}, [])
  | OpenConfirm, Received Notification => teardown s false
  | OpenConfirm, Received _ => teardown s true
  | Established, Received (Update true) => (rearm_hold s, [RouteUpdate])
  | Established, Received (Update false) => teardown s true
  | Established, Received Keepalive => (rearm_hold s, [])
  | Established, Received RouteRefresh => (rearm_hold s, [])
  | Established, Received Notification => teardown s false
  | Established, Received (Open _ _) => teardown s true
  | Established, KeepaliveTimerExpired =>
      ({| state := Established; hold := hold s; hold_timer := hold_timer s;
          keepalive_timer := Some (keepalive_interval cfg (hold s));
          retry_timer := retry_timer s |},
       [SendKeepalive])
  | (OpenSent | OpenConfirm | Established), HoldTimerExpired => teardown s true
  | (OpenSent | OpenConfirm | Established), TransportError => teardown s false
  | (OpenSent | OpenConfirm | Established), _ => (s, [])
  end.

(** One unit of time on a timer: [true] when it expires. *)
Definition count_down (t : option nat) : option nat * bool :=
  match t with
  | None => (None, false)
  | Some n => if (n <=? 1)%nat then (None, true) else (Some (n - 1)%nat, false)
  end.

(** What reaches a session: an event of its stream, or the passing of one unit
    of time. *)
Inductive Input : Type :=
| Ev (e : Event)
| Tick.

Definition feed (cfg : Config) (e : Event) (fire : bool) (acc : Session * list Output)
  : Session * list Output :=
  if fire then
    let '(s', out) := handle cfg acc.1 e in (s', acc.2 ++ out)
  else acc.

(** Modelled from the spec: section 5 has every timer expiry injected into the
    session's own event stream; when time passes, the timers that run out raise
    their events, the hold timer first; the state machine's code is not among
    the sources. *)
Definition tick (cfg : Config) (s : Session) : Session * list Output :=
  let '(ht, hold_fired) := count_down (hold_timer s) in
  let '(kt, keepalive_fired) := count_down (keepalive_timer s) in
  let '(rt, retry_fired) := count_down (retry_timer s) in
  let s1 := {| state := state s; hold := hold s; hold_timer := ht;
               keepalive_timer := kt; retry_timer := rt |} in
  feed cfg ConnectRetryExpired retry_fired
    (feed cfg KeepaliveTimerExpired keepalive_fired
       (feed cfg HoldTimerExpired hold_fired (s1, []))).

Definition input (cfg : Config) (s : Session) (i : Input) : Session * list Output :=
  match i with
  | Ev e => handle cfg s e
  | Tick => tick cfg s
  end.

(** A run: the session after a sequence of inputs, with everything it put out,
    in order. *)
Fixpoint run (cfg : Config) (s : Session) (inputs : list Input) : Session * list Output :=
  match inputs with
  | [] => (s, [])
  | i :: rest =>
      let '(s1, out1) := input cfg s i in
      let '(s2, out2) := run cfg s1 rest in
      (s2, out1 ++ out2)
  end.

Definition is_notification (o : Output) : bool :=
  match o with SendNotification => true | _ => false end.

Definition notifications (out : list Output) : nat :=
  length (List.filter is_notification out).


(** ** A sample session *)


(** The inputs that bring a peer up, the remote end proposing a hold time. *)
Definition handshake (proposed : nat) : list Input :=
  [Ev AdminStart; Ev TransportEstablished; Ev (Received (Open true proposed));
   Ev (Received Keepalive)].


End Fsm.

(** * Properties of the gateway *)

Module ApiFacts.

Import Api.

Lemma bind_run {A B : Type} (m : Go A) (k : A -> Go B) (w : World) :
  (m ≫= k) w =
    match m w with
    | (Done a, w') => k a w'
    | (Panicked msg, w') => (Panicked msg, w')
    | (Blocked c, w') => (Blocked c, w')
    end.
Proof. reflexivity. Qed.

Lemma new_events_app (w w' : World) (evs : list Event) :
  trace w' = trace w ++ evs -> new_events w w' = evs.
Proof. intros H. unfold new_events. rewrite H. by rewrite drop_app_length. Qed.

Lemma log_events_nil (w : World) : log_events [] w = w.
Proof. destruct w. unfold log_events. cbn. by rewrite app_nil_r. Qed.

(** The first status written stands. *)
Lemma status_sticks (evs : list Event) (r : Reply) (code : Z) :
  status r = Some code -> status (foldl apply_event r evs) = Some code.
Proof.
  revert r. induction evs as [|e evs IH]; intros r H; [done|].
  cbn [foldl]. apply IH. destruct e; cbn; rewrite ?H; done.
Qed.

Lemma fresh_chan_unused (w : World) : chans w !! fresh (dom (chans w)) = None.
Proof. apply not_elem_of_dom, is_fresh. Qed.

Section Handler.

Variable coordinator : RestRequest -> Service.
Variable json_MarshalIndent : RestResponseNeighbor -> string * error.
Variable json_Marshal : RestResponseNeighbor -> string * error.

#[local] Abbreviation handler := (Neighbor coordinator json_MarshalIndent json_Marshal).
#[local] Abbreviation reply := (Neighbor_reply json_MarshalIndent json_Marshal).
#[local] Abbreviation encode := (marshal json_MarshalIndent json_Marshal).
#[local] Abbreviation perth addr :=
  (Sprintf_no_verb "Failed to perth json of neighbor state" addr).

(** Where the handler stands once the coordinator has had its say. *)
Lemma Neighbor_builds (rs : RestServer) (r : Request) (w : World) :
  handler rs r w =
    let req := neighbor_request r w in
    let c := ResponseCh req in
    let w1 := {| JsonFormat := JsonFormat w;
                 chans := <[c := 0%nat]> (chans w);
                 mail := delete c (mail w);
                 trace := trace w ++ opening r ++ [EvMake c] |} in
    match coordinator req with
    | NotReceiving => (Blocked (bgpServerCh rs), w1)
    | Silent => (Blocked c, log_events [EvSend (bgpServerCh rs) req] w1)
    | Answers resp =>
        reply (RemoteAddr req) resp
          {| JsonFormat := JsonFormat w;
             chans := <[c := 0%nat]> (chans w);
             mail := delete c (mail w);
             trace := trace w ++ opening r
                        ++ [EvMake c; EvSend (bgpServerCh rs) req; EvRecv c resp] |}
    end.
Proof.
  unfold Neighbor, neighbor_request, opening.
  destruct (Vars r !! PARAM_REMOTE_PEER_ADDR) as [addr|]; cbn [default from_option id];
    cbv zeta; cbn [ResponseCh RemoteAddr].
  all: unfold NewRestRequest, make_chan, chan_send, chan_recv, logger_Debug, http_Error,
         emit, log_event, log_events, mbind, Go_bind, mret, Go_ret.
  all: cbn -[fresh Neighbor_reply].
  all: destruct (coordinator _) as [| |resp]; cbn -[fresh Neighbor_reply].
  all: rewrite ?lookup_delete_eq, ?lookup_insert_eq, ?delete_insert_eq, ?delete_delete_eq.
  all: rewrite <- ?app_assoc; cbn -[fresh Neighbor_reply]; reflexivity.
Qed.

(** The four ways the handler can go once it holds a response. *)
Lemma Neighbor_reply_cases (addr : string) (resp : RestResponse) (w : World) :
  ∃ o tail,
    reply addr resp w = (o, log_events tail w) ∧
    ((∃ e, Err resp = Some e ∧ o = Done tt ∧
           tail = [EvDebug e; EvHttpError e StatusInternalServerError]) ∨
     (∃ n jns, resp = PtrNeighbor n ∧ Err resp = None ∧
               encode (JsonFormat w) n = (jns, None) ∧
               o = Done tt ∧ tail = [EvWrite jns]) ∨
     (∃ n jns e, resp = PtrNeighbor n ∧ Err resp = None ∧
                 encode (JsonFormat w) n = (jns, Some e) ∧
                 o = Done tt ∧
                 tail = [EvLogError (perth addr);
                         EvHttpError (perth addr) StatusInternalServerError]) ∨
     (Err resp = None ∧ (∀ n, resp ≠ PtrNeighbor n) ∧
      o = Panicked "interface conversion: RestResponse is not *RestResponseNeighbor" ∧
      tail = [])).
Proof.
  unfold Neighbor_reply.
  destruct (Err resp) as [e|] eqn:He.
  - eexists _, _. split; [|left; eauto].
    unfold logger_Debug, http_Error, emit, log_event, log_events, mbind, Go_bind. cbn.
    by rewrite <- app_assoc.
  - destruct resp as [d|n|b].
    + eexists _, []. split; [|right; right; right; repeat split; done].
      unfold panic. by rewrite log_events_nil.
    + unfold get_JsonFormat, mbind, Go_bind at 1.
      destruct (marshal _ _ (JsonFormat w) n) as [jns [e|]] eqn:Hm.
      * eexists _, _. split; [|right; right; left; eauto 10].
        unfold logger_Error, http_Error, emit, log_event, log_events, mbind, Go_bind. cbn.
        by rewrite <- app_assoc.
      * eexists _, _. split; [|right; left; eauto 10].
        reflexivity.
    + eexists _, []. split; [|right; right; right; repeat split; done].
      unfold panic. by rewrite log_events_nil.
Qed.

(** The handler sends nothing but the one request it built. *)
Lemma Neighbor_sends (rs : RestServer) (r : Request) (w : World) :
  ∀ c req, (c, req) ∈ sent (new_events w (handler rs r w).2) ->
    c = bgpServerCh rs ∧ req = neighbor_request r w.
Proof.
  intros c req. rewrite Neighbor_builds. cbv zeta.
  destruct (coordinator _) as [| |resp].
  - cbn [snd]. erewrite new_events_app; [|reflexivity].
    unfold opening. destruct (Vars r !! PARAM_REMOTE_PEER_ADDR); cbn; by intros ?%elem_of_nil.
  - cbn [snd]. erewrite new_events_app; [|cbn; rewrite <- !app_assoc; reflexivity].
    unfold opening. destruct (Vars r !! PARAM_REMOTE_PEER_ADDR); cbn.
    all: intros [=]%list_elem_of_singleton; by subst.
  - match goal with |- context [Neighbor_reply _ _ ?a resp ?w3] =>
      destruct (Neighbor_reply_cases a resp w3) as (o & tail & -> & Hcases) end.
    cbn [snd]. erewrite new_events_app; [|cbn; rewrite <- !app_assoc; reflexivity].
    unfold opening.
    destruct Hcases as [(e & _ & _ & ->)|[(n & jns & _ & _ & _ & _ & ->)|
      [(n & jns & e & _ & _ & _ & _ & ->)|(_ & _ & _ & ->)]]].
    all: destruct (Vars r !! PARAM_REMOTE_PEER_ADDR); cbn.
    all: intros [=]%list_elem_of_singleton; by subst.
Qed.



(** C8. When the peer-address parameter is absent, the handler first writes
    the 500 reply and then carries on: it builds a request with an empty
    remote address, sends it on the server channel and waits on the request's
    response channel, blocked there for as long as the coordinator stays
    silent; when the coordinator answers, the response is received and the
    reply that went out first keeps the status at 500. *)
Theorem Neighbor_missing_address (rs : RestServer) (r : Request) (w : World) :
  Vars r !! PARAM_REMOTE_PEER_ADDR = None ->
  ∃ o w' rest,
    handler rs r w = (o, w') ∧
    RemoteAddr (neighbor_request r w) = "" ∧
    RequestType (neighbor_request r w) = REQ_NEIGHBOR ∧
    new_events w w' =
      [EvDebug "neighbor address is not specified";
       EvHttpError "neighbor address is not specified" StatusInternalServerError;
       EvDebug "Look up neighbor with the remote address : ";
       EvMake (ResponseCh (neighbor_request r w))] ++ rest ∧
    status (http_reply (new_events w w')) = Some StatusInternalServerError ∧
    match coordinator (neighbor_request r w) with
    | NotReceiving => rest = [] ∧ o = Blocked (bgpServerCh rs)
    | Silent =>
        rest = [EvSend (bgpServerCh rs) (neighbor_request r w)] ∧
        o = Blocked (ResponseCh (neighbor_request r w))
    | Answers resp =>
        ∃ tail,
          rest = [EvSend (bgpServerCh rs) (neighbor_request r w);
                  EvRecv (ResponseCh (neighbor_request r w)) resp] ++ tail ∧
          sent (new_events w w') = [(bgpServerCh rs, neighbor_request r w)] ∧
          received (new_events w w') = [(ResponseCh (neighbor_request r w), resp)] ∧
          (∀ c, o ≠ Blocked c)
    end.
Proof.
  intros Hv. rewrite Neighbor_builds. cbv zeta.
  assert (Hopen : opening r =
    [EvDebug "neighbor address is not specified";
     EvHttpError "neighbor address is not specified" StatusInternalServerError;
     EvDebug "Look up neighbor with the remote address : "])
    by (unfold opening; by rewrite Hv).
  assert (Haddr : RemoteAddr (neighbor_request r w) = "")
    by (unfold neighbor_request; cbn; by rewrite Hv).
  destruct (coordinator _) as [| |resp].
  - eexists _, _, []. split; [reflexivity|].
    erewrite new_events_app; [|cbn; rewrite Hopen; reflexivity].
    repeat split; done.
  - eexists _, _, _. split; [reflexivity|].
    erewrite new_events_app; [|cbn; rewrite Hopen, <- !app_assoc; reflexivity].
    repeat split; done.
  - match goal with |- context [Neighbor_reply _ _ ?a resp ?w3] =>
      destruct (Neighbor_reply_cases a resp w3) as (o & tail & -> & Hcases) end.
    eexists _, _, _. split; [reflexivity|].
    erewrite new_events_app; [|cbn; rewrite Hopen, <- !app_assoc; reflexivity].
    split; [done|]. split; [done|]. split; [reflexivity|].
    split; [unfold http_reply; rewrite foldl_app; by apply status_sticks|].
    exists tail. split; [reflexivity|].
    destruct Hcases as [(e & _ & -> & ->)|[(n & jns & _ & _ & _ & -> & ->)|
      [(n & jns & e & _ & _ & _ & -> & ->)|(_ & _ & -> & ->)]]]; cbn; repeat split; done.
Qed.

End Handler.

Lemma NewRestRequest_run (reqType : Z) (remoteAddr : string) (w : World) :
  NewRestRequest reqType remoteAddr w =
    (Done {| RequestType := reqType; RemoteAddr := remoteAddr;
             ResponseCh := fresh (dom (chans w)); ReqErr := None |},
     {| JsonFormat := JsonFormat w;
        chans := <[fresh (dom (chans w)) := 0%nat]> (chans w);
        mail := delete (fresh (dom (chans w))) (mail w);
        trace := trace w ++ [EvMake (fresh (dom (chans w)))] |}).
Proof. reflexivity. Qed.

(** Channels once made stay made. *)
Lemma NewRestRequests_chans (args : list (Z * string)) :
  ∀ w rs w', NewRestRequests args w = (Done rs, w') →
    chans w ⊆ chans w' ∧
    Forall (fun r => (ResponseCh r ∉ dom (chans w)) ∧ (ResponseCh r ∈ dom (chans w'))) rs ∧
    NoDup (ResponseCh <$> rs) ∧ length rs = length args.
Proof.
  induction args as [|[t a] args IH]; intros w rs w' H.
  - inversion H; subst. repeat split; [done | constructor | constructor].
  - cbn [NewRestRequests] in H. rewrite bind_run, NewRestRequest_run, bind_run in H.
    destruct (NewRestRequests args _) as [[rs'| |] w1] eqn:E; try discriminate.
    inversion H; subst; clear H.
    apply IH in E as (Hsub & Hall & Hnd & Hlen). cbn [chans] in *.
    set (c := fresh (dom (chans w))) in *.
    assert (Hc : chans w !! c = None) by apply fresh_chan_unused.
    assert (Hsub0 : chans w ⊆ <[c:=0%nat]> (chans w)) by (by apply insert_subseteq).
    repeat split.
    + by etrans.
    + constructor; cbn.
      * split; [by apply not_elem_of_dom|].
        apply elem_of_dom. exists 0%nat.
        eapply lookup_weaken; [|exact Hsub]. apply lookup_insert_eq.
      * eapply Forall_impl; [exact Hall|]. cbn. intros r [Hn Hi]. split; [|done].
        intros Hin. apply Hn. apply elem_of_dom. apply elem_of_dom in Hin as [v Hv].
        exists v. eapply lookup_weaken; eauto.
    + cbn. constructor; [|done].
      intros Hin. apply list_elem_of_fmap in Hin as (r & Hr & Hin).
      rewrite Forall_forall in Hall. destruct (Hall r Hin) as [Hn _].
      apply Hn. rewrite <- Hr. apply elem_of_dom. exists 0%nat. apply lookup_insert_eq.
    + cbn. by rewrite Hlen.
Qed.

Lemma NewRestRequests_total (args : list (Z * string)) (w : World) :
  ∃ rs w', NewRestRequests args w = (Done rs, w').
Proof.
  revert w. induction args as [|[t a] args IH]; intros w.
  - by eexists _, _.
  - cbn [NewRestRequests]. rewrite bind_run, NewRestRequest_run, bind_run.
    destruct (IH {| JsonFormat := JsonFormat w;
        chans := <[fresh (dom (chans w)) := 0%nat]> (chans w);
        mail := delete (fresh (dom (chans w))) (mail w);
        trace := trace w ++ [EvMake (fresh (dom (chans w)))] |}) as (rs & w' & ->).
    by eexists _, _.
Qed.

(** C9. [NewRestRequest] returns, for any kind and address, a request that
    carries exactly those two arguments and a nil [Err]; its [ResponseCh] is a
    channel that did not exist before the call, is unbuffered and empty after
    it, and differs from the channel of every request built before or after:
    requests built one after the other have pairwise distinct channels. *)
Theorem NewRestRequest_fresh_channel (reqType : Z) (remoteAddr : string) (w : World) :
  ∃ req w',
    NewRestRequest reqType remoteAddr w = (Done req, w') ∧
    RequestType req = reqType ∧
    RemoteAddr req = remoteAddr ∧
    ReqErr req = None ∧
    chans w !! ResponseCh req = None ∧
    chans w' !! ResponseCh req = Some 0%nat ∧
    mail w' !! ResponseCh req = None ∧
    new_events w w' = [EvMake (ResponseCh req)] ∧
    (∀ args, ∃ rs w'',
        NewRestRequests ((reqType, remoteAddr) :: args) w = (Done (req :: rs), w'') ∧
        length rs = length args ∧
        NoDup (ResponseCh <$> (req :: rs))).
Proof.
  eexists _, _. split; [apply NewRestRequest_run|]. cbn.
  repeat split.
  - apply fresh_chan_unused.
  - apply lookup_insert_eq.
  - apply lookup_delete_eq.
  - unfold new_events. cbn. by rewrite drop_app_length.
  - intros args.
    destruct (NewRestRequests_total args
      {| JsonFormat := JsonFormat w;
         chans := <[fresh (dom (chans w)) := 0%nat]> (chans w);
         mail := delete (fresh (dom (chans w))) (mail w);
         trace := trace w ++ [EvMake (fresh (dom (chans w)))] |}) as (rs & w'' & E).
    exists rs, w''.
    match goal with |- ?eq ∧ _ => assert (Efull : eq) end.
    { cbn [NewRestRequests]. rewrite bind_run, NewRestRequest_run, bind_run, E.
      reflexivity. }
    split; [exact Efull|].
    pose proof (NewRestRequests_chans ((reqType, remoteAddr) :: args) _ _ _ Efull)
      as (_ & _ & Hnd & Hlen).
    split; [cbn in Hlen; lia | done].
Qed.





(** [Neighbor_missing_address] at a request with no path variable. *)
Lemma Neighbor_missing_address_witness :
  ∃ o w' rest,
    Neighbor sample_coordinator sample_marshal sample_marshal sample_server
      (unrouted "/v1/bgp/neighbor") initial_world = (o, w') ∧
    RemoteAddr (neighbor_request (unrouted "/v1/bgp/neighbor") initial_world) = "" ∧
    RequestType (neighbor_request (unrouted "/v1/bgp/neighbor") initial_world)
      = REQ_NEIGHBOR ∧
    new_events initial_world w' =
      [EvDebug "neighbor address is not specified";
       EvHttpError "neighbor address is not specified" StatusInternalServerError;
       EvDebug "Look up neighbor with the remote address : ";
       EvMake (ResponseCh (neighbor_request (unrouted "/v1/bgp/neighbor") initial_world))]
      ++ rest ∧
    status (http_reply (new_events initial_world w')) = Some StatusInternalServerError ∧
    match sample_coordinator (neighbor_request (unrouted "/v1/bgp/neighbor") initial_world) with
    | NotReceiving => rest = [] ∧ o = Blocked (bgpServerCh sample_server)
    | Silent =>
        rest = [EvSend (bgpServerCh sample_server)
                  (neighbor_request (unrouted "/v1/bgp/neighbor") initial_world)] ∧
        o = Blocked (ResponseCh (neighbor_request (unrouted "/v1/bgp/neighbor") initial_world))
    | Answers resp =>
        ∃ tail,
          rest = [EvSend (bgpServerCh sample_server)
                    (neighbor_request (unrouted "/v1/bgp/neighbor") initial_world);
                  EvRecv (ResponseCh (neighbor_request (unrouted "/v1/bgp/neighbor")
                                        initial_world)) resp] ++ tail ∧
          sent (new_events initial_world w') =
            [(bgpServerCh sample_server,
              neighbor_request (unrouted "/v1/bgp/neighbor") initial_world)] ∧
          received (new_events initial_world w') =
            [(ResponseCh (neighbor_request (unrouted "/v1/bgp/neighbor") initial_world),
              resp)] ∧
          (∀ c, o ≠ Blocked c)
    end.
Proof.
  apply (Neighbor_missing_address sample_coordinator sample_marshal sample_marshal
           sample_server (unrouted "/v1/bgp/neighbor") initial_world).
  reflexivity.
Defined.

(** C3 (as stated) fails: [RequestType] is an [int], and [NewRestRequest]
    stores whatever kind it is handed, here one outside the [REQ_] constants. *)
Lemma request_kind_outside_the_constants :
  ∃ req w',
    NewRestRequest 7 "10.0.0.1" initial_world = (Done req, w') ∧
    RequestType req = 7 ∧
    RequestType req ∉ REQ_KINDS.
Proof.
  eexists _, _. split; [apply NewRestRequest_run|]. split; [reflexivity|].
  cbn. unfold REQ_KINDS, REQ_NEIGHBOR, REQ_NEIGHBORS, REQ_ADJ_RIB_IN, REQ_ADJ_RIB_OUT,
    REQ_ADJ_RIB_LOCAL, REQ_ADJ_RIB_LOCAL_BEST.
  rewrite !elem_of_cons, elem_of_nil. lia.
Qed.

(** C3 (amended). The six [REQ_] constants are the distinct values 1 to 6, one
    for each kind of query; [RequestType] itself is an [int] that
    [NewRestRequest] fills with the kind it is given, as it fills [RemoteAddr]
    with the address; and every request the gateway's handler sends carries
    [REQ_NEIGHBOR] and, as its key, the peer-address path parameter (empty when
    the parameter is absent). *)
Theorem request_kinds_and_key :
  REQ_KINDS = [1; 2; 3; 4; 5; 6] ∧
  NoDup REQ_KINDS ∧
  (∀ reqType remoteAddr w, ∃ req w',
      NewRestRequest reqType remoteAddr w = (Done req, w') ∧
      RequestType req = reqType ∧ RemoteAddr req = remoteAddr) ∧
  (∀ coordinator json_MarshalIndent json_Marshal rs r w c req,
      (c, req) ∈ sent (new_events w
                         (Neighbor coordinator json_MarshalIndent json_Marshal rs r w).2) ->
      c = bgpServerCh rs ∧
      RequestType req = REQ_NEIGHBOR ∧
      RequestType req ∈ REQ_KINDS ∧
      RemoteAddr req = default "" (Vars r !! PARAM_REMOTE_PEER_ADDR)).
Proof.
  split; [reflexivity|]. split.
  { unfold REQ_KINDS, REQ_NEIGHBOR, REQ_NEIGHBORS, REQ_ADJ_RIB_IN, REQ_ADJ_RIB_OUT,
      REQ_ADJ_RIB_LOCAL, REQ_ADJ_RIB_LOCAL_BEST.
    repeat (constructor; [rewrite ?elem_of_cons, ?elem_of_nil; lia|]). constructor. }
  split.
  { intros t a w. eexists _, _. split; [apply NewRestRequest_run|]. done. }
  intros coordinator mI mU rs r w c req Hin.
  apply Neighbor_sends in Hin as [-> ->]. cbn.
  repeat split. unfold REQ_KINDS. apply list_elem_of_here.
Qed.



(** ** Routing *)


(** A request the router hands to [Neighbor] always carries the address. *)
Lemma routed_request_has_address coordinator json_MarshalIndent json_Marshal
    (rs : RestServer) (req : Request) (h : Handler) (req' : Request) :
  dispatch (routes (Serve_router coordinator json_MarshalIndent json_Marshal rs)) req
    = Some (h, req') ->
  h = Neighbor coordinator json_MarshalIndent json_Marshal rs ∧
  ∃ addr, Vars req' !! PARAM_REMOTE_PEER_ADDR = Some addr ∧
          Path req = "/v1/bgp/neighbor/" +:+ addr ∧ addr ≠ "".
Proof.
  cbn. unfold match_route. cbn [methods template].
  destruct (existsb _ _); [|done].
  unfold match_path.
  replace (parse_template _) with ("/v1/bgp/neighbor/", Some "remotePeerAddr")
    by reflexivity.
  destruct (strip_prefix _ (Path req)) as [seg|] eqn:Hs; [|done].
  destruct (String.eqb seg "") eqn:He; [done|].
  destruct (has_char _ seg); [done|]. cbn.
  intros [= <- <-]. split; [done|]. exists seg. cbn.
  split; [apply lookup_singleton_eq|]. split.
  - clear He. revert Hs. generalize (Path req) as p.
    generalize "/v1/bgp/neighbor/" as pre.
    induction pre as [|a pre IH]; intros p; cbn.
    + by intros [= ->].
    + destruct p as [|b p]; [done|].
      destruct (Ascii.eqb a b) eqn:Hab; [|done].
      apply Ascii.eqb_eq in Hab as ->. intros Hs. by rewrite (IH _ Hs).
  - intros ->. by rewrite String.eqb_refl in He.
Qed.



End ApiFacts.

(** * Properties of the decision process *)

Module DecisionFacts.

Import Decision.


Section Measures.

Variable ms : list (Route -> Z).




End Measures.

Section Selection.

Context {A : Type} (route_of : A -> Route).

#[local] Abbreviation above x y := (compare_routes true (route_of x) (route_of y) ≠ Gt).










End Selection.



(** The scenario of section 8: B's route wins in either order. *)
Example two_contributors :
  select id true [route_a; route_b] = Some route_b ∧
  select id true [route_b; route_a] = Some route_b ∧
  select id false [route_a; route_b] = Some route_b ∧
  select id false [route_b; route_a] = Some route_b.
Proof. repeat split; vm_compute; reflexivity. Qed.

End DecisionFacts.

(** * Properties of the RIB engine *)

Module RibFacts.

Import Decision Rib.












End RibFacts.

(** * Properties of the peer session state machine *)

Module FsmFacts.

Import Fsm.













(** The interval that counts is the negotiated one: the lower of the two
    proposals, re-armed by every message received. *)
Lemma negotiated_hold (cfg : Config) (proposed : nat) :
  state (run cfg initial (handshake proposed)).1 = Established ∧
  hold (run cfg initial (handshake proposed)).1 = Nat.min (hold_time cfg) proposed ∧
  hold_timer (run cfg initial (handshake proposed)).1
    = Some (Nat.min (hold_time cfg) proposed) ∧
  notifications (run cfg initial (handshake proposed)).2 = 0%nat.
Proof. repeat split. Qed.

Lemma received_rearms_hold (cfg : Config) (s : Session) (m : Message) :
  state s = Established ->
  state (handle cfg s (Received m)).1 = Established ->
  hold_timer (handle cfg s (Received m)).1 = Some (hold s).
Proof.
  destruct s as [st hd ht kt rt]. cbn. intros ->.
  destruct m as [[|] p|[|]| | |]; cbn; done.
Qed.

End FsmFacts.

(** * Further properties of the gateway *)

Module GatewayFacts.

Import Api ApiFacts.


Section Handler.

Variable coordinator : RestRequest -> Service.
Variable json_MarshalIndent : RestResponseNeighbor -> string * error.
Variable json_Marshal : RestResponseNeighbor -> string * error.

#[local] Abbreviation handler := (Neighbor coordinator json_MarshalIndent json_Marshal).
#[local] Abbreviation encode := (marshal json_MarshalIndent json_Marshal).
#[local] Abbreviation router := (Serve_router coordinator json_MarshalIndent json_Marshal).

(** X1. Whatever the coordinator and the marshallers do, one run of [Neighbor]
    only adds to the trace, leaves [JsonFormat] alone, makes exactly one
    channel, unbuffered and new, sends at most one request, the one it built,
    on [bgpServerCh], and receives at most once: only when that request was
    sent, on the request's own channel, the response the coordinator gave to
    that request. *)
Theorem Neighbor_exchange_bounds (rs : RestServer) (r : Request) (w : World) :
  ∃ o w' evs,
    handler rs r w = (o, w') ∧
    trace w' = trace w ++ evs ∧
    JsonFormat w' = JsonFormat w ∧
    chans w !! ResponseCh (neighbor_request r w) = None ∧
    chans w' = <[ResponseCh (neighbor_request r w) := 0%nat]> (chans w) ∧
    (sent evs = [] ∨ sent evs = [(bgpServerCh rs, neighbor_request r w)]) ∧
    (received evs = [] ∨
     ∃ resp, coordinator (neighbor_request r w) = Answers resp ∧
             sent evs = [(bgpServerCh rs, neighbor_request r w)] ∧
             received evs = [(ResponseCh (neighbor_request r w), resp)]).
Proof.
  rewrite Neighbor_builds. cbv zeta.
  pose proof (fresh_chan_unused w) as Hfresh.
  destruct (coordinator (neighbor_request r w)) as [| |resp] eqn:Hc.
  - eexists _, _, (opening r ++ [EvMake _]).
    split; [reflexivity|]. split; [reflexivity|]. split; [reflexivity|].
    split; [exact Hfresh|]. split; [reflexivity|].
    unfold opening. destruct (Vars r !! PARAM_REMOTE_PEER_ADDR); cbn; auto.
  - eexists _, _, (opening r ++ [EvMake _; EvSend _ _]).
    split; [reflexivity|]. split; [cbn; by rewrite <- !app_assoc|].
    split; [reflexivity|]. split; [exact Hfresh|]. split; [reflexivity|].
    unfold opening. destruct (Vars r !! PARAM_REMOTE_PEER_ADDR); cbn; auto.
  - match goal with |- context [Neighbor_reply _ _ ?a resp ?w3] =>
      destruct (Neighbor_reply_cases json_MarshalIndent json_Marshal a resp w3)
        as (o & tail & -> & Hcases) end.
    eexists _, _, (opening r ++ [EvMake _; EvSend _ _; EvRecv _ resp] ++ tail).
    split; [reflexivity|]. split; [cbn; by rewrite <- !app_assoc|].
    split; [reflexivity|]. split; [exact Hfresh|]. split; [reflexivity|].
    unfold opening.
    destruct Hcases as [(e & _ & _ & ->)|[(n & jns & _ & _ & _ & _ & ->)|
      [(n & jns & e & _ & _ & _ & _ & ->)|(_ & _ & _ & ->)]]].
    all: destruct (Vars r !! PARAM_REMOTE_PEER_ADDR); cbn.
    all: split; [by right | right; by exists resp].
Qed.

(** X2. With the address present, a coordinator that does not answer leaves
    the handler blocked, on the send when the coordinator does not take the
    request and on the response channel when it does, and nothing has been
    written to the HTTP response: no status, no body. *)
Theorem Neighbor_waits_for_response (rs : RestServer) (r : Request) (w : World) :
  is_Some (Vars r !! PARAM_REMOTE_PEER_ADDR) ->
  coordinator (neighbor_request r w) = NotReceiving ∨
    coordinator (neighbor_request r w) = Silent ->
  ∃ c w',
    handler rs r w = (Blocked c, w') ∧
    (coordinator (neighbor_request r w) = NotReceiving -> c = bgpServerCh rs) ∧
    (coordinator (neighbor_request r w) = Silent ->
       c = ResponseCh (neighbor_request r w) ∧
       sent (new_events w w') = [(bgpServerCh rs, neighbor_request r w)]) ∧
    received (new_events w w') = [] ∧
    replies (new_events w w') = [] ∧
    http_reply (new_events w w') = {| status := None; body := "" |}.
Proof.
  intros [addr Hv] Hc. rewrite Neighbor_builds. cbv zeta.
  assert (Hopen : opening r =
    [EvDebug ("Look up neighbor with the remote address : " +:+ addr)])
    by (unfold opening; by rewrite Hv).
  destruct Hc as [Hc|Hc]; rewrite Hc.
  - eexists _, _. split; [reflexivity|].
    erewrite new_events_app; [|cbn; rewrite Hopen; reflexivity].
    repeat split; done.
  - eexists _, _. split; [reflexivity|].
    erewrite new_events_app; [|cbn; rewrite Hopen, <- !app_assoc; reflexivity].
    repeat split; done.
Qed.

(** X3. The switch on [JsonFormat] has no default: when the variable holds
    neither constant and a neighbor's state arrives with no error, neither
    marshaller is consulted and the handler writes an empty payload, which for
    a request that carries the address goes out under status 200 with an empty
    body. *)
Theorem Neighbor_unknown_format (rs : RestServer) (r : Request) (w : World)
    (n : RestResponseNeighbor) :
  coordinator (neighbor_request r w) = Answers (PtrNeighbor n) ->
  ResponseErr (NbDefault n) = None ->
  JsonFormat w ≠ JSON_FORMATTED ->
  JsonFormat w ≠ JSON_UN_FORMATTED ->
  ∃ w',
    handler rs r w = (Done tt, w') ∧
    encode (JsonFormat w) n = ("", None) ∧
    replies (after_recv (new_events w w')) = [EvWrite ""] ∧
    payloads (new_events w w') = [EvWrite ""] ∧
    (is_Some (Vars r !! PARAM_REMOTE_PEER_ADDR) ->
     http_reply (new_events w w') = {| status := Some StatusOK; body := "" |}).
Proof.
  intros Hc He Hf1 Hf2. rewrite Neighbor_builds. cbv zeta. rewrite Hc.
  assert (Hm : encode (JsonFormat w) n = ("", None)).
  { unfold marshal. destruct (Z.eqb_spec (JsonFormat w) JSON_FORMATTED); [done|].
    by destruct (Z.eqb_spec (JsonFormat w) JSON_UN_FORMATTED). }
  unfold Neighbor_reply. replace (Err (PtrNeighbor n)) with (@None string) by done.
  rewrite bind_run. cbn [get_JsonFormat JsonFormat]. rewrite Hm.
  eexists. split; [reflexivity|]. split; [done|].
  erewrite new_events_app; [|cbn; rewrite <- !app_assoc; reflexivity].
  unfold opening.
  destruct (Vars r !! PARAM_REMOTE_PEER_ADDR) as [addr|]; cbn.
  - repeat split.
  - repeat split. by intros [? [=]].
Qed.

(** X4. A request with no address that the coordinator nevertheless answers
    with a neighbor's state gets both: the error line written first and the
    payload appended to it, all under the status of the first write, 500. *)
Theorem Neighbor_error_then_payload (rs : RestServer) (r : Request) (w : World)
    (n : RestResponseNeighbor) (jns : string) :
  Vars r !! PARAM_REMOTE_PEER_ADDR = None ->
  coordinator (neighbor_request r w) = Answers (PtrNeighbor n) ->
  ResponseErr (NbDefault n) = None ->
  encode (JsonFormat w) n = (jns, None) ->
  ∃ w',
    handler rs r w = (Done tt, w') ∧
    replies (new_events w w') =
      [EvHttpError "neighbor address is not specified" StatusInternalServerError;
       EvWrite jns] ∧
    http_reply (new_events w w') =
      {| status := Some StatusInternalServerError;
         body := "neighbor address is not specified" +:+ LF +:+ jns |}.
Proof.
  intros Hv Hc He Hm. rewrite Neighbor_builds. cbv zeta. rewrite Hc.
  unfold Neighbor_reply. replace (Err (PtrNeighbor n)) with (@None string) by done.
  rewrite bind_run. cbn [get_JsonFormat JsonFormat]. rewrite Hm.
  eexists. split; [reflexivity|].
  erewrite new_events_app; [|cbn; rewrite <- !app_assoc; reflexivity].
  unfold opening. rewrite Hv. cbn. done.
Qed.






(** X9. When marshalling fails, the requester gets status 500 and a body made
    of the fixed text with the address appended as an EXTRA note, the format
    having no verb for it; neither the marshaller's partial output nor its
    error text is written, and no payload goes out. *)
Theorem Neighbor_marshal_failure (rs : RestServer) (r : Request) (w : World)
    (addr : string) (n : RestResponseNeighbor) (jns e : string) :
  Vars r !! PARAM_REMOTE_PEER_ADDR = Some addr ->
  coordinator (neighbor_request r w) = Answers (PtrNeighbor n) ->
  ResponseErr (NbDefault n) = None ->
  encode (JsonFormat w) n = (jns, Some e) ->
  ∃ w',
    handler rs r w = (Done tt, w') ∧
    payloads (new_events w w') = [] ∧
    replies (new_events w w') =
      [EvHttpError ("Failed to perth json of neighbor state%!(EXTRA string="
                    +:+ addr +:+ ")") StatusInternalServerError] ∧
    http_reply (new_events w w') =
      {| status := Some StatusInternalServerError;
         body := ("Failed to perth json of neighbor state%!(EXTRA string="
                  +:+ addr +:+ ")") +:+ LF |}.
Proof.
  intros Hv Hc He Hm. rewrite Neighbor_builds. cbv zeta. rewrite Hc.
  unfold Neighbor_reply. replace (Err (PtrNeighbor n)) with (@None string) by done.
  rewrite bind_run. cbn [get_JsonFormat JsonFormat]. rewrite Hm.
  eexists. split; [reflexivity|].
  erewrite new_events_app; [|cbn; rewrite <- !app_assoc; reflexivity].
  unfold opening, neighbor_request. rewrite Hv. cbn.
  unfold Sprintf_no_verb. repeat split; reflexivity.
Qed.

End Handler.

(** [Neighbor_waits_for_response] at a coordinator that never answers. *)
Lemma Neighbor_waits_for_response_witness :
  ∃ c w',
    Neighbor silent_coordinator sample_marshal sample_marshal sample_server
      (routed "10.0.0.1") initial_world = (Blocked c, w') ∧
    (silent_coordinator (neighbor_request (routed "10.0.0.1") initial_world) = NotReceiving ->
       c = bgpServerCh sample_server) ∧
    (silent_coordinator (neighbor_request (routed "10.0.0.1") initial_world) = Silent ->
       c = ResponseCh (neighbor_request (routed "10.0.0.1") initial_world) ∧
       sent (new_events initial_world w') =
         [(bgpServerCh sample_server, neighbor_request (routed "10.0.0.1") initial_world)]) ∧
    received (new_events initial_world w') = [] ∧
    replies (new_events initial_world w') = [] ∧
    http_reply (new_events initial_world w') = {| status := None; body := "" |}.
Proof.
  apply (Neighbor_waits_for_response silent_coordinator sample_marshal sample_marshal
           sample_server (routed "10.0.0.1") initial_world).
  - exists "10.0.0.1". reflexivity.
  - right. reflexivity.
Defined.

(** [Neighbor_unknown_format] with [JsonFormat] at zero. *)
Lemma Neighbor_unknown_format_witness :
  ∃ w',
    Neighbor neighbor_coordinator sample_marshal sample_marshal sample_server
      (routed "10.0.0.1") unset_format_world = (Done tt, w') ∧
    marshal sample_marshal sample_marshal (JsonFormat unset_format_world) sample_neighbor
      = ("", None) ∧
    replies (after_recv (new_events unset_format_world w')) = [EvWrite ""] ∧
    payloads (new_events unset_format_world w') = [EvWrite ""] ∧
    (is_Some (Vars (routed "10.0.0.1") !! PARAM_REMOTE_PEER_ADDR) ->
     http_reply (new_events unset_format_world w')
       = {| status := Some StatusOK; body := "" |}).
Proof.
  apply (Neighbor_unknown_format neighbor_coordinator sample_marshal sample_marshal
           sample_server (routed "10.0.0.1") unset_format_world sample_neighbor).
  - reflexivity.
  - reflexivity.
  - vm_compute. discriminate.
  - vm_compute. discriminate.
Defined.

(** [Neighbor_error_then_payload] at a request with no path variable. *)
Lemma Neighbor_error_then_payload_witness :
  ∃ w',
    Neighbor neighbor_coordinator sample_marshal sample_marshal sample_server
      (unrouted "/v1/bgp/neighbor") initial_world = (Done tt, w') ∧
    replies (new_events initial_world w') =
      [EvHttpError "neighbor address is not specified" StatusInternalServerError;
       EvWrite "{RemoteAddr: 10.0.0.1}"] ∧
    http_reply (new_events initial_world w') =
      {| status := Some StatusInternalServerError;
         body := "neighbor address is not specified" +:+ LF +:+ "{RemoteAddr: 10.0.0.1}" |}.
Proof.
  apply (Neighbor_error_then_payload neighbor_coordinator sample_marshal sample_marshal
           sample_server (unrouted "/v1/bgp/neighbor") initial_world sample_neighbor
           "{RemoteAddr: 10.0.0.1}"); reflexivity.
Defined.


(** [routed_request_has_address] at the path of a known peer. *)
Lemma routed_request_has_address_witness :
  Neighbor sample_coordinator sample_marshal sample_marshal sample_server
    = Neighbor sample_coordinator sample_marshal sample_marshal sample_server ∧
  ∃ addr,
    Vars {| Method := "GET"; Path := "/v1/bgp/neighbor/10.0.0.1";
            Vars := {[ PARAM_REMOTE_PEER_ADDR := "10.0.0.1" ]} |}
      !! PARAM_REMOTE_PEER_ADDR = Some addr ∧
    Path (unrouted "/v1/bgp/neighbor/10.0.0.1") = "/v1/bgp/neighbor/" +:+ addr ∧
    addr ≠ "".
Proof.
  apply (routed_request_has_address sample_coordinator sample_marshal sample_marshal
           sample_server (unrouted "/v1/bgp/neighbor/10.0.0.1")).
  reflexivity.
Defined.


(** [Neighbor_marshal_failure] with a marshaller that always fails. *)
Lemma Neighbor_marshal_failure_witness :
  ∃ w',
    Neighbor neighbor_coordinator failing_marshal failing_marshal sample_server
      (routed "10.0.0.1") initial_world = (Done tt, w') ∧
    payloads (new_events initial_world w') = [] ∧
    replies (new_events initial_world w') =
      [EvHttpError ("Failed to perth json of neighbor state%!(EXTRA string="
                    +:+ "10.0.0.1" +:+ ")") StatusInternalServerError] ∧
    http_reply (new_events initial_world w') =
      {| status := Some StatusInternalServerError;
         body := ("Failed to perth json of neighbor state%!(EXTRA string="
                  +:+ "10.0.0.1" +:+ ")") +:+ LF |}.
Proof.
  apply (Neighbor_marshal_failure neighbor_coordinator failing_marshal failing_marshal
           sample_server (routed "10.0.0.1") initial_world "10.0.0.1" sample_neighbor
           "" "json: unsupported value"); reflexivity.
Defined.

End GatewayFacts.
